(** * The chatbox / agent bridge: mailbox hand-off between two handlers

    A shallow embedding of [python_bridge/chatboxAgenticBridge.py].

    The program keeps three process-wide globals: the mailbox [message] and
    the two [asyncio.Event]s [event] (a request is ready for the agent) and
    [event2] (a reply is ready for the dashboard).  Two coroutines,
    [agenticHandler] and [dashboardHandler], share them.

    Each coroutine is embedded as a one-statement transition function over
    the shared state, indexed by a program point named after the statement
    about to run.  What the websocket does (a send completes, a receive
    returns a text, either one raises) is chosen by the environment and
    passed in as an [outcome].  The system is the interleaving of one
    instance of each handler; interleaving at statement granularity covers
    every schedule of the asyncio loop, which only switches at an [await].

    [await ev.wait()] is embedded as a transition guarded by the flag of
    [ev]: with one waiter per event, and that waiter the only one that
    clears the flag, a waiter that has been woken finds the flag still set.
    The [print] calls write to the standard output only and are left out. *)

From Stdlib Require Import String List Bool Arith NArith Lia.
Import ListNotations.
Local Open Scope string_scope.
Local Open Scope list_scope.

(** ** Data model *)

(** What crosses the two websockets, as an observer of both would log it. *)
Inductive io_event : Type :=
| FromDash (p : string)   (* dashboard websocket: recv returned p *)
| ToAgent (p : string)    (* agent websocket: send of p completed *)
| FromAgent (r : string)  (* agent websocket: recv returned r *)
| ToDash (r : string).    (* dashboard websocket: send of r completed *)

(** What the environment decides for the statement about to run. *)
Inductive outcome : Type :=
| Quiet                   (* no websocket call in this statement *)
| Sent                    (* websocket.send returned *)
| Got (p : string)        (* websocket.recv returned p *)
| Raised.                 (* the websocket call raised (connection closed) *)

(** Program points of [agenticHandler], by source line. *)
Inductive agent_pc : Type :=
| AgWait     (* 15: await event.wait() *)
| AgClear    (* 17: event.clear() *)
| AgSend     (* 18: await websocket.send(message) *)
| AgRecv     (* 20: message = await websocket.recv() *)
| AgSet      (* 22: event2.set() *)
| AgClosed.  (* the exception left the loop; finally has run *)

(** Program points of [dashboardHandler], by source line. *)
Inductive dash_pc : Type :=
| DbFirst    (* 30: message = await websocket.recv() *)
| DbTest     (* 31: while (message != "exit") *)
| DbSet      (* 33: event.set() *)
| DbWait     (* 34: await event2.wait() *)
| DbClear    (* 36: event2.clear() *)
| DbSend     (* 37: await websocket.send(message) *)
| DbRecv     (* 39: message = await websocket.recv() *)
| DbClosed.  (* the loop was left; finally has run *)

(** The globals of the module, the two program counters and the log. *)
Record bridge : Type := Bridge {
  message : string;
  event : bool;
  event2 : bool;
  agent : agent_pc;
  dashboard : dash_pc;
  wire : list io_event
}.

(** Lines 6-8: [message = "global"], two fresh (unset) events; no handler
    has run and nothing has crossed a websocket. *)
Definition start : bridge :=
  Bridge "global" false false AgWait DbFirst [].

(** The termination payload tested on line 31. *)
Definition sentinel : string := "exit".

Definition write (m : string) (b : bridge) : bridge :=
  Bridge m (event b) (event2 b) (agent b) (dashboard b) (wire b).

Definition turn_signal (v : bool) (b : bridge) : bridge :=
  Bridge (message b) v (event2 b) (agent b) (dashboard b) (wire b).

Definition reply_signal (v : bool) (b : bridge) : bridge :=
  Bridge (message b) (event b) v (agent b) (dashboard b) (wire b).

Definition agent_goto (pc : agent_pc) (b : bridge) : bridge :=
  Bridge (message b) (event b) (event2 b) pc (dashboard b) (wire b).

Definition dash_goto (pc : dash_pc) (b : bridge) : bridge :=
  Bridge (message b) (event b) (event2 b) (agent b) pc (wire b).

Definition emit (e : io_event) (b : bridge) : bridge :=
  Bridge (message b) (event b) (event2 b) (agent b) (dashboard b)
         (wire b ++ [e]).

(** ** The two handlers *)

(** One statement of [agenticHandler].  [None]: the handler cannot take
    this transition (it is suspended on [event], it has finished, or the
    outcome does not belong to the statement). *)
Definition agenticHandler (o : outcome) (b : bridge) : option bridge :=
  match agent b, o with
  | AgWait, Quiet =>
      if event b then Some (agent_goto AgClear b) else None
  | AgClear, Quiet =>
      Some (agent_goto AgSend (turn_signal false b))
  | AgSend, Sent =>
      Some (agent_goto AgRecv (emit (ToAgent (message b)) b))
  | AgSend, Raised =>
      Some (agent_goto AgClosed b)
  | AgRecv, Got r =>
      Some (agent_goto AgSet (write r (emit (FromAgent r) b)))
  | AgRecv, Raised =>
      Some (agent_goto AgClosed b)
  | AgSet, Quiet =>
      Some (agent_goto AgWait (reply_signal true b))
  | _, _ => None
  end.

(** One statement of [dashboardHandler]. *)
Definition dashboardHandler (o : outcome) (b : bridge) : option bridge :=
  match dashboard b, o with
  | DbFirst, Got p =>
      Some (dash_goto DbTest (write p (emit (FromDash p) b)))
  | DbFirst, Raised =>
      Some (dash_goto DbClosed b)
  | DbTest, Quiet =>
      if String.eqb (message b) sentinel
      then Some (dash_goto DbClosed b)
      else Some (dash_goto DbSet b)
  | DbSet, Quiet =>
      Some (dash_goto DbWait (turn_signal true b))
  | DbWait, Quiet =>
      if event2 b then Some (dash_goto DbClear b) else None
  | DbClear, Quiet =>
      Some (dash_goto DbSend (reply_signal false b))
  | DbSend, Sent =>
      Some (dash_goto DbRecv (emit (ToDash (message b)) b))
  | DbSend, Raised =>
      Some (dash_goto DbClosed b)
  | DbRecv, Got p =>
      Some (dash_goto DbTest (write p (emit (FromDash p) b)))
  | DbRecv, Raised =>
      Some (dash_goto DbClosed b)
  | _, _ => None
  end.

(** ** Interleaved execution *)

Inductive actor : Type := Agent | Dashboard.

Definition handler (w : actor) : outcome -> bridge -> option bridge :=
  match w with
  | Agent => agenticHandler
  | Dashboard => dashboardHandler
  end.

(** One step of the system: one statement of one of the two handlers. *)
Definition step (b b' : bridge) : Prop :=
  exists w o, handler w o b = Some b'.

Inductive reachable : bridge -> Prop :=
| reach_start : reachable start
| reach_step b b' : reachable b -> step b b' -> reachable b'.

(** A labelled execution, run from a list of (actor, outcome) choices. *)
Fixpoint exec (ls : list (actor * outcome)) (b : bridge) : option bridge :=
  match ls with
  | [] => Some b
  | (w, o) :: ls' =>
      match handler w o b with
      | Some b' => exec ls' b'
      | None => None
      end
  end.

(** Which phase of the hand-off the two handlers are in: the combinations
    of program points and flags that the interleaving can produce. *)
Definition phase_ok (b : bridge) : bool :=
  match dashboard b, agent b, event b, event2 b with
  | (DbFirst | DbTest | DbSet | DbSend | DbRecv | DbClosed),
    AgWait, false, false => true
  | DbWait, (AgWait | AgClear), true, false => true
  | DbWait, (AgSend | AgRecv | AgSet | AgClosed), false, false => true
  | DbWait, AgWait, false, true => true
  | DbClear, AgWait, false, true => true
  | _, _, _, _ => false
  end.

(** ** The log of the two websockets *)

(** Texts sent to the agent and texts sent to the dashboard, in order. *)
Definition to_agent (l : list io_event) : list string :=
  flat_map (fun e => match e with ToAgent p => [p] | _ => [] end) l.

Definition to_dash (l : list io_event) : list string :=
  flat_map (fun e => match e with ToDash r => [r] | _ => [] end) l.

(** Texts received from the dashboard and from the agent, in order. *)
Definition from_dash (l : list io_event) : list string :=
  flat_map (fun e => match e with FromDash p => [p] | _ => [] end) l.

Definition from_agent (l : list io_event) : list string :=
  flat_map (fun e => match e with FromAgent r => [r] | _ => [] end) l.

(** One full turn: request in, request out, reply in, reply out. *)
Definition turn (pr : string * string) : list io_event :=
  [FromDash (fst pr); ToAgent (fst pr); FromAgent (snd pr); ToDash (snd pr)].

(** The log of relaying requests [ps], answered by [rs], turn for turn. *)
Definition relay (ps rs : list string) : list io_event :=
  flat_map turn (combine ps rs).

(** The last entry of a log that continues after [prev]. *)
Definition last_from (prev : option io_event) (l : list io_event)
  : option io_event :=
  fold_left (fun _ e => Some e) l prev.

Definition last_event (l : list io_event) : option io_event :=
  last_from None l.

(** May [e] be logged right after [prev]?  A text goes out to a peer only
    right after the same text came in from the other peer. *)
Definition follows (prev : option io_event) (e : io_event) : bool :=
  match e, prev with
  | FromDash _, (None | Some (ToDash _)) => true
  | ToAgent p, Some (FromDash q) => String.eqb p q && negb (String.eqb p sentinel)
  | FromAgent _, Some (ToAgent _) => true
  | ToDash r, Some (FromAgent q) => String.eqb r q
  | _, _ => false
  end.

Fixpoint chained (prev : option io_event) (l : list io_event) : bool :=
  match l with
  | [] => true
  | e :: l' => follows prev e && chained (Some e) l'
  end.

(** What a well-chained log has delivered, by its last entry. *)
Definition tally (l : list io_event) : Prop :=
  match last_event l with
  | None => l = []
  | Some (FromDash p) =>
      from_dash l = to_agent l ++ [p] /\ from_agent l = to_dash l /\
      length (to_agent l) = length (to_dash l)
  | Some (ToAgent _) =>
      from_dash l = to_agent l /\ from_agent l = to_dash l /\
      length (to_agent l) = S (length (to_dash l))
  | Some (FromAgent r) =>
      from_dash l = to_agent l /\ from_agent l = to_dash l ++ [r] /\
      length (to_agent l) = S (length (to_dash l))
  | Some (ToDash _) =>
      from_dash l = to_agent l /\ from_agent l = to_dash l /\
      length (to_agent l) = length (to_dash l)
  end.

(** How the last log entry and the mailbox relate at each program point. *)
Definition cursor (b : bridge) : bool :=
  match dashboard b, agent b, event2 b, last_event (wire b) with
  | DbFirst, _, _, None => true
  | DbRecv, _, _, Some (ToDash _) => true
  | DbTest, _, _, Some (FromDash p) => String.eqb p (message b)
  | DbSet, _, _, Some (FromDash p) =>
      String.eqb p (message b) && negb (String.eqb p sentinel)
  | DbWait, (AgWait | AgClear | AgSend), false, Some (FromDash p) =>
      String.eqb p (message b) && negb (String.eqb p sentinel)
  | DbWait, AgRecv, _, Some (ToAgent _) => true
  | DbWait, AgSet, _, Some (FromAgent r) => String.eqb r (message b)
  | DbWait, AgWait, true, Some (FromAgent r) => String.eqb r (message b)
  | (DbClear | DbSend), _, _, Some (FromAgent r) => String.eqb r (message b)
  | DbWait, AgClosed, _, _ => true
  | DbClosed, _, _, _ => true
  | _, _, _, _ => false
  end.

(** The three facts carried along every execution. *)
Definition sound (b : bridge) : Prop :=
  phase_ok b = true /\ chained None (wire b) = true /\ cursor b = true.

(** Is the handler at a statement that calls its websocket? *)
Definition at_transport (w : actor) (b : bridge) : bool :=
  match w with
  | Agent => match agent b with AgSend | AgRecv => true | _ => false end
  | Dashboard =>
      match dashboard b with
      | DbFirst | DbSend | DbRecv => true
      | _ => false
      end
  end.

Definition closed (w : actor) (b : bridge) : bool :=
  match w with
  | Agent => match agent b with AgClosed => true | _ => false end
  | Dashboard => match dashboard b with DbClosed => true | _ => false end
  end.

(** ** Running against two well-behaved peers *)

(** The texts each peer will send, in order.  A receive on an empty queue
    stays suspended; sends complete; nothing raises. *)
Record peers : Type := Peers {
  dash_says : list string;
  agent_says : list string
}.

(** The outcome the peers give to the statement [w] is about to run. *)
Definition offer (w : actor) (b : bridge) (e : peers)
  : option (outcome * peers) :=
  match w with
  | Dashboard =>
      match dashboard b with
      | DbFirst | DbRecv =>
          match dash_says e with
          | p :: ps => Some (Got p, Peers ps (agent_says e))
          | [] => None
          end
      | DbSend => Some (Sent, e)
      | _ => Some (Quiet, e)
      end
  | Agent =>
      match agent b with
      | AgRecv =>
          match agent_says e with
          | r :: rs => Some (Got r, Peers (dash_says e) rs)
          | [] => None
          end
      | AgSend => Some (Sent, e)
      | _ => Some (Quiet, e)
      end
  end.

(** The scheduler resumes [w]: one statement if [w] can run, else nothing. *)
Definition attempt (w : actor) (x : bridge * peers)
  : option (bridge * peers) :=
  match offer w (fst x) (snd x) with
  | Some (o, e') =>
      match handler w o (fst x) with
      | Some b' => Some (b', e')
      | None => None
      end
  | None => None
  end.

Definition resume (w : actor) (x : bridge * peers) : bridge * peers :=
  match attempt w x with
  | Some x' => x'
  | None => x
  end.

(** Run under an arbitrary schedule. *)
Fixpoint run (sched : list actor) (x : bridge * peers) : bridge * peers :=
  match sched with
  | [] => x
  | w :: sched' => run sched' (resume w x)
  end.

Fixpoint round_robin (n : nat) : list actor :=
  match n with
  | O => []
  | S n' => Dashboard :: Agent :: round_robin n'
  end.

(** The next statement of whichever handler can run. *)
Definition tick (x : bridge * peers) : option (bridge * peers) :=
  match attempt Dashboard x with
  | Some x' => Some x'
  | None => attempt Agent x
  end.

Definition next (x : bridge * peers) : bridge * peers :=
  match tick x with
  | Some x' => x'
  | None => x
  end.

Fixpoint iter (n : nat) (x : bridge * peers) : bridge * peers :=
  match n with
  | O => x
  | S n' => iter n' (next x)
  end.

(** Both handlers between turns: the dashboard about to receive, the agent
    waiting for a turn, both signals unset. *)
Definition ready (b : bridge) : bool :=
  match dashboard b, agent b, event b, event2 b with
  | (DbFirst | DbRecv), AgWait, false, false => true
  | _, _, _, _ => false
  end.

(** The statements of [dashboardHandler] up to and including its wait on
    [event2] (lines 30-34), and its exit. *)
Definition before_reply (pc : dash_pc) : bool :=
  match pc with
  | DbFirst | DbTest | DbSet | DbWait | DbClosed => true
  | DbClear | DbSend | DbRecv => false
  end.

(** The dashboard handler on its own: what holds as long as the agent
    handler has not run a statement. *)
Definition unanswered (b : bridge) : Prop :=
  agent b = AgWait /\ event2 b = false /\
  before_reply (dashboard b) = true /\
  to_agent (wire b) = [] /\ to_dash (wire b) = [] /\
  (dashboard b = DbWait -> event b = true).

(** ** The listener *)

Record server : Type := Server {
  serves : actor;
  host : string;
  port : N
}.

(** Lines 43-46: the two [websockets.serve] calls of [main], in order. *)
Definition main : list server :=
  [ Server Agent "0.0.0.0" 12691%N;
    Server Dashboard "localhost" 12345%N ].

(** What a host argument makes the listening socket accept: the IPv4
    wildcard address accepts on every interface, the loopback names on the
    loopback interface only. *)
Inductive binding : Type :=
| AllInterfaces
| LoopbackOnly
| Address (h : string).

Definition binding_of (h : string) : binding :=
  if String.eqb h "0.0.0.0" then AllInterfaces
  else if String.eqb h "localhost" || String.eqb h "127.0.0.1"
       then LoopbackOnly
       else Address h.

Definition endpoints (w : actor) (l : list server) : list (binding * N) :=
  map (fun s => (binding_of (host s), port s))
      (filter (fun s => match serves s, w with
                        | Agent, Agent | Dashboard, Dashboard => true
                        | _, _ => false
                        end) l).

(** ** Phase invariant *)

#[local] Arguments String.eqb : simpl never.
#[local] Arguments last_from : simpl never.

Lemma phase_ok_start : phase_ok start = true.
Proof. reflexivity. Qed.

Lemma phase_ok_handler w o b b' :
  phase_ok b = true -> handler w o b = Some b' -> phase_ok b' = true.
Proof.
  destruct b as [m ev ev2 a d t].
  destruct w, o, a, d, ev, ev2; cbn; try discriminate;
    intros _ H; try discriminate;
    try (injection H as <-; reflexivity);
    destruct (String.eqb m sentinel); injection H as <-; reflexivity.
Qed.

Lemma reachable_phase_ok b : reachable b -> phase_ok b = true.
Proof.
  induction 1 as [|b b' _ IH (w & o & Hs)].
  - exact phase_ok_start.
  - eapply phase_ok_handler; eauto.
Qed.

Lemma exec_reachable ls b b' :
  reachable b -> exec ls b = Some b' -> reachable b'.
Proof.
  revert b; induction ls as [|[w o] ls IH]; cbn; intros b Hb H.
  - now injection H as <-.
  - destruct (handler w o b) as [b1|] eqn:E; [|discriminate].
    eapply IH; [|exact H]. eapply reach_step; [exact Hb|]. now exists w, o.
Qed.

(** C1. In every state the interleaving of the two handlers can reach, the
    Turn Signal [event] and the Reply Signal [event2] are not both set. *)
Theorem signals_mutually_exclusive b :
  reachable b -> event b && event2 b = false.
Proof.
  intros Hb. apply reachable_phase_ok in Hb.
  destruct b as [m ev ev2 a d t]; cbn in *.
  destruct ev, ev2; try reflexivity.
  destruct d, a; discriminate.
Qed.

Lemma signals_mutually_exclusive_witness :
  event (Bridge "hi" true false AgWait DbWait [FromDash "hi"])
  && event2 (Bridge "hi" true false AgWait DbWait [FromDash "hi"]) = false.
Proof.
  apply signals_mutually_exclusive.
  apply (exec_reachable
           [(Dashboard, Got "hi"); (Dashboard, Quiet); (Dashboard, Quiet)]
           start); [exact reach_start | reflexivity].
Defined.

(** ** Log invariant *)

Lemma last_from_snoc prev l e : last_from prev (l ++ [e]) = Some e.
Proof. unfold last_from. now rewrite fold_left_app. Qed.

Lemma last_event_snoc l e : last_event (l ++ [e]) = Some e.
Proof. apply last_from_snoc. Qed.

Lemma chained_app prev l1 l2 :
  chained prev (l1 ++ l2) = chained prev l1 && chained (last_from prev l1) l2.
Proof.
  revert prev; induction l1 as [|e l1 IH]; intros prev; cbn.
  - reflexivity.
  - now rewrite IH, andb_assoc.
Qed.

Lemma chained_snoc prev l e :
  chained prev (l ++ [e]) = chained prev l && follows (last_from prev l) e.
Proof. rewrite chained_app. cbn. now rewrite andb_true_r. Qed.

Lemma sound_start : sound start.
Proof. repeat split. Qed.

Ltac log_step :=
  unfold cursor, last_event in *; cbn in *;
  rewrite ?last_from_snoc, ?chained_snoc;
  repeat match goal with
         | H : _ && _ = true |- _ => apply andb_prop in H; destruct H
         | H : String.eqb _ _ = true |- _ => apply String.eqb_eq in H; subst
         | H : negb _ = true |- _ => apply negb_true_iff in H
         end;
  cbn in *; rewrite ?String.eqb_refl; cbn;
  repeat match goal with
         | H : ?x = _ |- context [?x] => rewrite H
         end;
  cbn; rewrite ?String.eqb_refl; cbn;
  try reflexivity; try assumption; try discriminate.

Lemma sound_handler w o b b' :
  sound b -> handler w o b = Some b' -> sound b'.
Proof.
  intros (Hp & Hc & Hk) H.
  split; [eapply phase_ok_handler; eauto|].
  destruct b as [m ev ev2 a d t].
  destruct w, o, a, d, ev, ev2; cbn in Hp; try discriminate Hp;
    cbn in H; try discriminate H;
    try (match type of H with
         | context [String.eqb m sentinel] =>
             destruct (String.eqb m sentinel) eqn:Em
         end);
    injection H as <-; cbn in Hc |- *;
    unfold cursor, last_event in Hk; cbn in Hk;
    destruct (last_from None t) as [[q|q|q|q]|] eqn:L;
    try discriminate Hk; (split; log_step).
Qed.

Lemma reachable_sound b : reachable b -> sound b.
Proof.
  induction 1 as [|b b' _ IH (w & o & Hs)].
  - exact sound_start.
  - eapply sound_handler; eauto.
Qed.

Lemma last_event_inv l e :
  last_event l = Some e -> exists l0, l = l0 ++ [e].
Proof.
  destruct l as [|x l] using rev_ind.
  - discriminate.
  - rewrite last_event_snoc. intros [= ->]. now exists l.
Qed.

Lemma chained_at l1 e l2 :
  chained None (l1 ++ e :: l2) = true -> follows (last_event l1) e = true.
Proof.
  rewrite chained_app. cbn. intros H.
  apply andb_prop in H as [_ H]. now apply andb_prop in H as [H _].
Qed.

Lemma chained_prefix prev l1 l2 :
  chained prev (l1 ++ l2) = true -> chained prev l1 = true.
Proof. rewrite chained_app. intros H. now apply andb_prop in H. Qed.

Lemma follows_ToAgent prev q :
  follows prev (ToAgent q) = true -> prev = Some (FromDash q) /\ q <> sentinel.
Proof.
  destruct prev as [[p|p|p|p]|]; cbn; try discriminate.
  intros H. apply andb_prop in H as [H1 H2].
  apply String.eqb_eq in H1 as ->. split; [reflexivity|].
  apply negb_true_iff in H2. now apply String.eqb_neq.
Qed.

Lemma follows_ToDash prev r :
  follows prev (ToDash r) = true -> prev = Some (FromAgent r).
Proof.
  destruct prev as [[p|p|p|p]|]; cbn; try discriminate.
  intros H. now apply String.eqb_eq in H as ->.
Qed.

Lemma after_FromDash p e :
  follows (Some (FromDash p)) e = true -> e = ToAgent p.
Proof.
  destruct e as [q|q|q|q]; cbn; try discriminate.
  intros H. apply andb_prop in H as [H _].
  now apply String.eqb_eq in H as ->.
Qed.

Lemma after_FromAgent r e :
  follows (Some (FromAgent r)) e = true -> e = ToDash r.
Proof.
  destruct e as [q|q|q|q]; cbn; try discriminate.
  intros H. now apply String.eqb_eq in H as ->.
Qed.

Lemma chained_pair l1 x e l2 :
  chained None (l1 ++ x :: e :: l2) = true -> follows (Some x) e = true.
Proof.
  intros H.
  replace (l1 ++ x :: e :: l2) with ((l1 ++ [x]) ++ e :: l2) in H
    by (now rewrite <- app_assoc).
  apply chained_at in H. now rewrite last_event_snoc in H.
Qed.

Lemma to_agent_split l q :
  In q (to_agent l) -> exists l1 l2, l = l1 ++ ToAgent q :: l2.
Proof.
  unfold to_agent. rewrite in_flat_map. intros (e & He & Hq).
  destruct e as [p|p|p|p]; cbn in Hq; try contradiction.
  destruct Hq as [->|[]]. now apply in_split.
Qed.

Lemma to_agent_first l q :
  hd_error (to_agent l) = Some q ->
  exists l1 l2, l = l1 ++ ToAgent q :: l2 /\ to_agent l1 = [].
Proof.
  induction l as [|e l IH]; cbn; [discriminate|].
  destruct e as [p|p|p|p]; cbn.
  2: { intros [= ->]. now exists [], l. }
  all: intros H; destruct (IH H) as (l1 & l2 & -> & Hn);
    eexists (_ :: l1), l2; split; [reflexivity | exact Hn].
Qed.

Lemma chained_no_agent l :
  chained None l = true -> to_agent l = [] ->
  l = [] \/ exists p, l = [FromDash p].
Proof.
  destruct l as [|e l]; [now left|]. right.
  destruct e as [p|p|p|p]; cbn in *; try discriminate.
  exists p. destruct l as [|e l]; [reflexivity|].
  cbn in H. apply andb_prop in H as [H _].
  apply after_FromDash in H. subst e. discriminate.
Qed.

Lemma got_request_inv q b b1 :
  phase_ok b = true -> dashboardHandler (Got q) b = Some b1 ->
  b1 = Bridge q false false AgWait DbTest (wire b ++ [FromDash q]).
Proof.
  destruct b as [m ev ev2 a d t].
  destruct d, a, ev, ev2; cbn; try discriminate; now intros _ [= <-].
Qed.

Lemma got_reply_inv q b b1 :
  phase_ok b = true -> agenticHandler (Got q) b = Some b1 ->
  b1 = Bridge q false false AgSet DbWait (wire b ++ [FromAgent q]).
Proof.
  destruct b as [m ev ev2 a d t].
  destruct d, a, ev, ev2; cbn; try discriminate; now intros _ [= <-].
Qed.

(** C3. Along every execution, a text is sent to the agent only right
    after the same text was received from the dashboard, a text is sent to
    the dashboard only right after the same text was received from the
    agent, and whatever is logged right after a receive is the send of the
    text received, unchanged.  And the relay does happen: once the
    dashboard handler has received a text [q] other than ["exit"], the next
    statements of the two handlers run up to the send of [q] to the agent;
    once the agent handler has received a reply [q], they run up to the
    send of [q] to the dashboard. *)
Theorem pass_through_fidelity b :
  reachable b ->
  forall l1 l2 q,
    (wire b = l1 ++ ToAgent q :: l2 -> exists l0, l1 = l0 ++ [FromDash q]) /\
    (wire b = l1 ++ ToDash q :: l2 -> exists l0, l1 = l0 ++ [FromAgent q]) /\
    (forall e, wire b = l1 ++ FromDash q :: e :: l2 -> e = ToAgent q) /\
    (forall e, wire b = l1 ++ FromAgent q :: e :: l2 -> e = ToDash q) /\
    (q <> sentinel ->
     forall b1, dashboardHandler (Got q) b = Some b1 ->
       exists b',
         exec [(Dashboard, Quiet); (Dashboard, Quiet);
               (Agent, Quiet); (Agent, Quiet); (Agent, Sent)] b1 = Some b' /\
         wire b' = wire b ++ [FromDash q; ToAgent q] /\
         to_agent (wire b') = to_agent (wire b) ++ [q]) /\
    (forall b1, agenticHandler (Got q) b = Some b1 ->
       exists b',
         exec [(Agent, Quiet); (Dashboard, Quiet);
               (Dashboard, Quiet); (Dashboard, Sent)] b1 = Some b' /\
         wire b' = wire b ++ [FromAgent q; ToDash q] /\
         to_dash (wire b') = to_dash (wire b) ++ [q]).
Proof.
  intros Hb l1 l2 q. destruct (reachable_sound b Hb) as (Hp & Hc & _).
  split; [|split; [|split; [|split; [|split]]]].
  - intros E. rewrite E in Hc. apply chained_at in Hc.
    apply follows_ToAgent in Hc as [Hc _]. now apply last_event_inv.
  - intros E. rewrite E in Hc. apply chained_at in Hc.
    apply follows_ToDash in Hc. now apply last_event_inv.
  - intros e E. rewrite E in Hc. apply chained_pair in Hc.
    now apply after_FromDash.
  - intros e E. rewrite E in Hc. apply chained_pair in Hc.
    now apply after_FromAgent.
  - intros Hq b1 H1. apply String.eqb_neq in Hq.
    rewrite (got_request_inv q b b1 Hp H1).
    eexists. cbn. rewrite Hq. cbn.
    split; [reflexivity|]. cbn.
    split; [now rewrite <- app_assoc|].
    unfold to_agent. rewrite !flat_map_app. cbn. now rewrite app_nil_r.
  - intros b1 H1.
    rewrite (got_reply_inv q b b1 Hp H1).
    eexists. cbn.
    split; [reflexivity|]. cbn.
    split; [now rewrite <- app_assoc|].
    unfold to_dash. rewrite !flat_map_app. cbn. now rewrite app_nil_r.
Qed.

Lemma pass_through_fidelity_witness :
  (exists b',
      exec [(Dashboard, Quiet); (Dashboard, Quiet);
            (Agent, Quiet); (Agent, Quiet); (Agent, Sent)]
           (Bridge "status" false false AgWait DbTest [FromDash "status"])
      = Some b' /\
      wire b' = [] ++ [FromDash "status"; ToAgent "status"] /\
      to_agent (wire b') = to_agent [] ++ ["status"]) /\
  (exists b',
      exec [(Agent, Quiet); (Dashboard, Quiet);
            (Dashboard, Quiet); (Dashboard, Sent)]
           (Bridge "ok" false false AgSet DbWait
                   [FromDash "status"; ToAgent "status"; FromAgent "ok"])
      = Some b' /\
      wire b' = [FromDash "status"; ToAgent "status"]
                  ++ [FromAgent "ok"; ToDash "ok"] /\
      to_dash (wire b')
      = to_dash [FromDash "status"; ToAgent "status"] ++ ["ok"]) /\
  (exists l0, [FromDash "status"; ToAgent "status"; FromAgent "ok"]
              = l0 ++ [FromAgent "ok"]).
Proof.
  assert (Hne : "status" <> sentinel) by discriminate.
  assert (Hmid : reachable (Bridge "status" false false AgRecv DbWait
                                   [FromDash "status"; ToAgent "status"])).
  { apply (exec_reachable
             [(Dashboard, Got "status"); (Dashboard, Quiet);
              (Dashboard, Quiet); (Agent, Quiet); (Agent, Quiet);
              (Agent, Sent)] start); [exact reach_start | reflexivity]. }
  assert (Hend : reachable (Bridge "ok" false false AgWait DbRecv
                                   [FromDash "status"; ToAgent "status";
                                    FromAgent "ok"; ToDash "ok"])).
  { apply (exec_reachable
             [(Agent, Got "ok"); (Agent, Quiet); (Dashboard, Quiet);
              (Dashboard, Quiet); (Dashboard, Sent)] _ _ Hmid).
    reflexivity. }
  split; [|split].
  - exact (proj1 (proj2 (proj2 (proj2 (proj2
             (pass_through_fidelity start reach_start [] [] "status")))))
             Hne _ eq_refl).
  - exact (proj2 (proj2 (proj2 (proj2 (proj2
             (pass_through_fidelity _ Hmid [] [] "ok")))))
             _ eq_refl).
  - exact (proj1 (proj2 (pass_through_fidelity _ Hend
                           [FromDash "status"; ToAgent "status";
                            FromAgent "ok"] [] "ok")) eq_refl).
Defined.

(** C9. Every text the agent handler sends to the agent was received from
    the dashboard immediately before and is not ["exit"]; in particular
    the initial mailbox content reaches the agent only if the dashboard
    itself sent that text. *)
Theorem agent_gets_only_requests b q :
  reachable b -> In q (to_agent (wire b)) ->
  q <> sentinel /\
  (exists l1 l2, wire b = l1 ++ FromDash q :: ToAgent q :: l2) /\
  (q = message start -> In (FromDash (message start)) (wire b)).
Proof.
  intros Hb Hq. destruct (reachable_sound b Hb) as (_ & Hc & _).
  apply to_agent_split in Hq as (l1 & l2 & E).
  rewrite E in Hc. apply chained_at in Hc.
  apply follows_ToAgent in Hc as [Hl Hne].
  apply last_event_inv in Hl as [l0 ->].
  assert (E' : wire b = l0 ++ FromDash q :: ToAgent q :: l2)
    by (now rewrite E, <- app_assoc).
  split; [exact Hne|]. split; [now exists l0, l2|].
  intros <-. rewrite E'. apply in_or_app. right. now left.
Qed.

Lemma agent_gets_only_requests_witness :
  "land" <> sentinel /\
  (exists l1 l2,
      [FromDash "land"; ToAgent "land"]
      = l1 ++ FromDash "land" :: ToAgent "land" :: l2) /\
  ("land" = message start -> In (FromDash (message start))
                                [FromDash "land"; ToAgent "land"]).
Proof.
  apply (agent_gets_only_requests
           (Bridge "land" false false AgRecv DbWait
                   [FromDash "land"; ToAgent "land"]) "land").
  - apply (exec_reachable
             [(Dashboard, Got "land"); (Dashboard, Quiet); (Dashboard, Quiet);
              (Agent, Quiet); (Agent, Quiet); (Agent, Sent)] start);
      [exact reach_start | reflexivity].
  - cbn. now left.
Defined.

(** ** The dashboard session: first request and termination *)

(** C5. When the first text [P] received by the dashboard handler is not
    ["exit"], the handler stores [P] in the mailbox, passes the loop test
    and sets [event], and only then reaches its wait on [event2]; [event]
    was unset before, the agent could not run in between, and the first
    text ever sent to the agent is [P]. *)
Theorem first_request_primes_turn P :
  P <> sentinel ->
  (exists b1 b2 b3,
      dashboardHandler (Got P) start = Some b1 /\
      dashboard b1 = DbTest /\ message b1 = P /\ event b1 = false /\
      dashboardHandler Quiet b1 = Some b2 /\
      dashboard b2 = DbSet /\ message b2 = P /\ event b2 = false /\
      dashboardHandler Quiet b2 = Some b3 /\
      dashboard b3 = DbWait /\ message b3 = P /\ event b3 = true /\
      (forall o, agenticHandler o start = None) /\
      (forall o, agenticHandler o b1 = None) /\
      (forall o, agenticHandler o b2 = None)) /\
  (forall b q,
      reachable b -> hd_error (wire b) = Some (FromDash P) ->
      hd_error (to_agent (wire b)) = Some q -> q = P).
Proof.
  intros HP. split.
  - apply String.eqb_neq in HP.
    exists (Bridge P false false AgWait DbTest [FromDash P]),
           (Bridge P false false AgWait DbSet [FromDash P]),
           (Bridge P true false AgWait DbWait [FromDash P]).
    cbn. rewrite HP.
    repeat (split; [reflexivity|]).
    repeat split; intros o; destruct o; reflexivity.
  - intros b q Hb Hhd Hq.
    destruct (reachable_sound b Hb) as (_ & Hc & _).
    apply to_agent_first in Hq as (l1 & l2 & E & Hn).
    rewrite E in Hc, Hhd.
    pose proof (chained_at _ _ _ Hc) as Hf.
    apply chained_prefix in Hc.
    destruct (chained_no_agent l1 Hc Hn) as [->|[p ->]].
    + discriminate Hhd.
    + injection Hhd as ->. cbn in Hf.
      apply andb_prop in Hf as [Hf _]. now apply String.eqb_eq in Hf.
Qed.

Lemma first_request_primes_turn_witness :
  "takeoff" <> sentinel /\
  (forall q,
      hd_error (to_agent [FromDash "takeoff"; ToAgent "takeoff"]) = Some q ->
      q = "takeoff").
Proof.
  assert (H : "takeoff" <> sentinel) by discriminate.
  split; [exact H|]. intros q.
  apply (proj2 (first_request_primes_turn "takeoff" H)
           (Bridge "takeoff" false false AgRecv DbWait
                   [FromDash "takeoff"; ToAgent "takeoff"]) q).
  - apply (exec_reachable
             [(Dashboard, Got "takeoff"); (Dashboard, Quiet);
              (Dashboard, Quiet); (Agent, Quiet); (Agent, Quiet);
              (Agent, Sent)] start); [exact reach_start | reflexivity].
  - reflexivity.
Defined.

Lemma got_sentinel_inv b b1 :
  phase_ok b = true -> dashboardHandler (Got sentinel) b = Some b1 ->
  (dashboard b = DbFirst \/ dashboard b = DbRecv) /\
  agent b = AgWait /\ event b = false /\ event2 b = false /\
  b1 = Bridge sentinel false false AgWait DbTest
              (wire b ++ [FromDash sentinel]).
Proof.
  destruct b as [m ev ev2 a d t].
  destruct d, a, ev, ev2; cbn; try discriminate; intros _ [= <-]; auto 6.
Qed.

(** C4. When the dashboard handler receives ["exit"], as its first text or
    at any later receive, the only thing that can happen next is that the
    loop is left; after that nothing runs at all.  [event] is unset, and
    the log ends with the receive of ["exit"]: no send follows it. *)
Theorem exit_ends_session b b1 :
  reachable b -> dashboardHandler (Got sentinel) b = Some b1 ->
  exists b2,
    dashboardHandler Quiet b1 = Some b2 /\
    (forall b', step b1 b' -> b' = b2) /\
    (forall b', ~ step b2 b') /\
    dashboard b2 = DbClosed /\
    event b1 = false /\ event b2 = false /\
    wire b2 = wire b ++ [FromDash sentinel].
Proof.
  intros Hb H. apply reachable_phase_ok in Hb.
  destruct (got_sentinel_inv b b1 Hb H) as (_ & _ & _ & _ & ->).
  eexists. split; [reflexivity|]. cbn.
  repeat split.
  - intros b' (w & o & Hs). destruct w, o; cbn in Hs; try discriminate.
    now injection Hs as <-.
  - intros b' (w & o & Hs). destruct w, o; discriminate.
Qed.

Lemma exit_ends_session_witness :
  exists b2,
    dashboardHandler Quiet
      (Bridge sentinel false false AgWait DbTest [FromDash sentinel])
    = Some b2 /\
    dashboard b2 = DbClosed /\ event b2 = false /\
    wire b2 = [FromDash sentinel].
Proof.
  destruct (exit_ends_session start
              (Bridge sentinel false false AgWait DbTest [FromDash sentinel])
              reach_start eq_refl)
    as (b2 & H1 & _ & _ & H2 & _ & H3 & H4).
  exists b2. repeat split; assumption.
Defined.

Lemma exec_stuck b :
  (forall b', ~ step b b') -> forall ls b', exec ls b = Some b' -> b' = b.
Proof.
  intros Hs [|[w o] ls] b'; cbn.
  - now intros [= <-].
  - destruct (handler w o b) as [b1|] eqn:E; [|discriminate].
    exfalso. apply (Hs b1). now exists w, o.
Qed.

(** C10. When the dashboard session ends on ["exit"], the mailbox holds
    ["exit"] and both signals are unset; the mailbox is not put back to
    its initial content, and no later execution changes this state. *)
Theorem exit_leaves_state b b1 b2 :
  reachable b ->
  dashboardHandler (Got sentinel) b = Some b1 ->
  dashboardHandler Quiet b1 = Some b2 ->
  dashboard b2 = DbClosed /\
  message b2 = "exit" /\ event b2 = false /\ event2 b2 = false /\
  message b2 <> message start /\
  (forall ls b', exec ls b2 = Some b' -> b' = b2).
Proof.
  intros Hb H1 H2. apply reachable_phase_ok in Hb.
  destruct (got_sentinel_inv b b1 Hb H1) as (_ & _ & _ & _ & ->).
  cbn in H2. injection H2 as <-. cbn.
  repeat split; try discriminate.
  apply exec_stuck. intros b' (w & o & Hs). destruct w, o; discriminate.
Qed.

Lemma exit_leaves_state_witness :
  message (Bridge sentinel false false AgWait DbClosed [FromDash sentinel])
  = "exit".
Proof.
  refine (proj1 (proj2 (exit_leaves_state start
            (Bridge sentinel false false AgWait DbTest [FromDash sentinel])
            (Bridge sentinel false false AgWait DbClosed [FromDash sentinel])
            reach_start eq_refl eq_refl))).
Defined.

(** ** Transport failures *)

Lemma raised_only_at_transport w b :
  at_transport w b = false -> handler w Raised b = None.
Proof.
  destruct b as [m ev ev2 a d t]; destruct w, a, d; cbn; congruence.
Qed.

(** C7. At every statement that calls the websocket, in either handler, a
    call that raises makes the handler leave its loop for good; that step
    leaves the mailbox, both signals and the log as they were. *)
Theorem transport_failure_exits w b :
  at_transport w b = true ->
  exists b',
    handler w Raised b = Some b' /\
    closed w b' = true /\
    (forall o, handler w o b' = None) /\
    message b' = message b /\
    event b' = event b /\
    event2 b' = event2 b /\
    wire b' = wire b.
Proof.
  destruct b as [m ev ev2 a d t].
  destruct w; cbn.
  - destruct a; try discriminate; intros _; eexists;
      (split; [reflexivity|]); repeat split; intros o; destruct o; reflexivity.
  - destruct d; try discriminate; intros _; eexists;
      (split; [reflexivity|]); repeat split; intros o; destruct o; reflexivity.
Qed.

Lemma transport_failure_exits_witness :
  exists b',
    handler Agent Raised
      (Bridge "land" false false AgRecv DbWait
              [FromDash "land"; ToAgent "land"]) = Some b' /\
    closed Agent b' = true /\
    (forall o, handler Agent o b' = None) /\
    message b' = "land" /\
    event b' = false /\
    event2 b' = false /\
    wire b' = [FromDash "land"; ToAgent "land"].
Proof.
  apply (transport_failure_exits Agent
           (Bridge "land" false false AgRecv DbWait
                   [FromDash "land"; ToAgent "land"])).
  reflexivity.
Defined.

(** ** Initial state and listener *)

(** C6 as stated fails: the mailbox does not start out as the sentinel. *)
Lemma mailbox_initially_not_sentinel : message start <> sentinel.
Proof. discriminate. Qed.

(** C6, amended. Before any handler runs the mailbox holds the text
    ["global"], which is not the sentinel ["exit"], and both signals are
    unset. *)
Theorem mailbox_initially_global :
  message start = "global" /\
  "global" <> sentinel /\
  event start = false /\ event2 start = false.
Proof. repeat split; discriminate. Qed.

(** C8. [main] serves [agenticHandler] on all interfaces at port 12691
    and [dashboardHandler] on the loopback interface only at port 12345. *)
Theorem listener_endpoints :
  endpoints Agent main = [(AllInterfaces, 12691%N)] /\
  endpoints Dashboard main = [(LoopbackOnly, 12345%N)].
Proof. split; reflexivity. Qed.

(** ** Alternation under every schedule *)

Lemma attempt_handler w x x' :
  attempt w x = Some x' -> exists o, handler w o (fst x) = Some (fst x').
Proof.
  unfold attempt. destruct (offer w (fst x) (snd x)) as [[o e']|]; [|discriminate].
  destruct (handler w o (fst x)) as [b'|] eqn:E; [|discriminate].
  intros [= <-]. now exists o.
Qed.

Lemma attempt_reachable w x x' :
  reachable (fst x) -> attempt w x = Some x' -> reachable (fst x').
Proof.
  intros Hx H. apply attempt_handler in H as [o Ho].
  eapply reach_step; [exact Hx|]. now exists w, o.
Qed.

(** At most one handler can run: the interleaving is in lock step. *)
Lemma agent_runs_alone x x' :
  phase_ok (fst x) = true -> attempt Agent x = Some x' ->
  attempt Dashboard x = None.
Proof.
  destruct x as [[m ev ev2 a d t] [ds ags]].
  unfold attempt; cbn.
  destruct d, a, ev, ev2; cbn; try discriminate; try reflexivity;
    destruct ags; cbn; discriminate.
Qed.

Lemma attempt_tick w x x' :
  phase_ok (fst x) = true -> attempt w x = Some x' -> tick x = Some x'.
Proof.
  intros Hp H. unfold tick. destruct w.
  - now rewrite (agent_runs_alone x x' Hp H).
  - now rewrite H.
Qed.

Lemma tick_reachable x x' :
  reachable (fst x) -> tick x = Some x' -> reachable (fst x').
Proof.
  unfold tick. intros Hx.
  destruct (attempt Dashboard x) as [x1|] eqn:E.
  - intros [= <-]. eapply attempt_reachable; eauto.
  - intros H. eapply attempt_reachable; eauto.
Qed.

Lemma next_reachable x : reachable (fst x) -> reachable (fst (next x)).
Proof.
  intros Hx. unfold next. destruct (tick x) as [x'|] eqn:E; [|exact Hx].
  eapply tick_reachable; eauto.
Qed.

Lemma iter_reachable n x : reachable (fst x) -> reachable (fst (iter n x)).
Proof.
  revert x; induction n as [|n IH]; intros x Hx; cbn; [exact Hx|].
  apply IH. now apply next_reachable.
Qed.

Lemma resume_next w x :
  reachable (fst x) -> resume w x = x \/ resume w x = next x.
Proof.
  intros Hx. unfold resume. destruct (attempt w x) as [x'|] eqn:E.
  - right. unfold next.
    now rewrite (attempt_tick w x x' (reachable_phase_ok _ Hx) E).
  - now left.
Qed.

Lemma iter_add a c x : iter (a + c) x = iter c (iter a x).
Proof. revert x; induction a as [|a IH]; intros x; cbn; [reflexivity|apply IH]. Qed.

Lemma run_app s1 s2 x : run (s1 ++ s2) x = run s2 (run s1 x).
Proof. revert x; induction s1 as [|w s1 IH]; intros x; cbn; [reflexivity|apply IH]. Qed.

(** Every schedule only advances the lock-step sequence. *)
Lemma run_iter sched x :
  reachable (fst x) -> exists k, run sched x = iter k x.
Proof.
  revert x; induction sched as [|w sched IH]; intros x Hx; cbn.
  - now exists 0.
  - destruct (resume_next w x Hx) as [E|E]; rewrite E.
    + now apply IH.
    + destruct (IH (next x) (next_reachable x Hx)) as [k Hk].
      now exists (S k).
Qed.

(** One round of the round-robin schedule advances it by at least one
    statement, unless nothing can run any more. *)
Lemma round_iter x :
  reachable (fst x) ->
  resume Agent (resume Dashboard x) = iter 1 x \/
  resume Agent (resume Dashboard x) = iter 2 x.
Proof.
  intros Hx. cbn [iter].
  pose proof (reachable_phase_ok _ Hx) as Hp.
  destruct (attempt Dashboard x) as [x1|] eqn:ED.
  - assert (ER : resume Dashboard x = x1) by (unfold resume; now rewrite ED).
    assert (En : next x = x1)
      by (unfold next; now rewrite (attempt_tick _ _ _ Hp ED)).
    rewrite ER, En.
    assert (H1 : reachable (fst x1)) by (eapply attempt_reachable; eauto).
    destruct (resume_next Agent x1 H1) as [E|E]; rewrite E; auto.
  - assert (ER : resume Dashboard x = x) by (unfold resume; now rewrite ED).
    rewrite ER. left. unfold resume, next, tick. now rewrite ED.
Qed.

Lemma round_robin_iter n x :
  reachable (fst x) ->
  exists k, n <= k /\ run (round_robin n) x = iter k x.
Proof.
  revert x; induction n as [|n IH]; intros x Hx.
  - exists 0. now split.
  - cbn [round_robin run].
    destruct (round_iter x Hx) as [E|E]; rewrite E.
    + destruct (IH (iter 1 x) (iter_reachable 1 x Hx)) as (k & Hk & Hr).
      exists (1 + k). split; [lia|]. now rewrite iter_add.
    + destruct (IH (iter 2 x) (iter_reachable 2 x Hx)) as (k & Hk & Hr).
      exists (2 + k). split; [lia|]. now rewrite iter_add.
Qed.

Lemma handler_wire w o b b' :
  handler w o b = Some b' -> exists l, wire b' = wire b ++ l.
Proof.
  destruct b as [m ev ev2 a d t].
  destruct w, o, a, d; cbn; try discriminate;
    try (destruct ev; try discriminate);
    try (destruct ev2; try discriminate);
    try (destruct (String.eqb m sentinel));
    intros [= <-]; cbn;
    solve [ now exists [] ; rewrite app_nil_r | eexists; reflexivity
          | exists []; now rewrite app_nil_r ].
Qed.

Lemma next_wire x : exists l, wire (fst (next x)) = wire (fst x) ++ l.
Proof.
  unfold next, tick.
  destruct (attempt Dashboard x) as [x1|] eqn:ED.
  - apply attempt_handler in ED as [o Ho]. eapply handler_wire; eauto.
  - destruct (attempt Agent x) as [x1|] eqn:EA.
    + apply attempt_handler in EA as [o Ho]. eapply handler_wire; eauto.
    + exists []. now rewrite app_nil_r.
Qed.

Lemma iter_wire n x : exists l, wire (fst (iter n x)) = wire (fst x) ++ l.
Proof.
  revert x; induction n as [|n IH]; intros x; cbn.
  - exists []. now rewrite app_nil_r.
  - destruct (IH (next x)) as [l1 H1]. destruct (next_wire x) as [l2 H2].
    exists (l2 ++ l1). now rewrite H1, H2, app_assoc.
Qed.

Lemma iter_step n x x1 y :
  tick x = Some x1 -> iter n x1 = y -> iter (S n) x = y.
Proof. intros Ht <-. cbn [iter]. unfold next. now rewrite Ht. Qed.

Ltac tick_once :=
  eapply iter_step;
  [ unfold tick, attempt; cbn;
    repeat match goal with
           | H : String.eqb _ _ = false |- _ => rewrite H
           end;
    unfold dash_goto, agent_goto, write, emit, turn_signal, reply_signal;
    cbn; reflexivity | ].

(** Eleven statements make one turn: six of the dashboard handler and
    five of the agent handler. *)
Lemma iter_turn b p r ps rs :
  ready b = true -> p <> sentinel ->
  iter 11 (b, Peers (p :: ps) (r :: rs))
  = (Bridge r false false AgWait DbRecv (wire b ++ turn (p, r)),
     Peers ps rs).
Proof.
  intros Hr Hp. apply String.eqb_neq in Hp.
  destruct b as [m ev ev2 a d t].
  destruct d, a, ev, ev2; try discriminate Hr; clear Hr;
    do 11 tick_once; cbn; now rewrite <- !app_assoc.
Qed.

Lemma iter_relay ps : forall rs b,
  ready b = true -> Forall (fun p => p <> sentinel) ps ->
  length rs = length ps ->
  exists b',
    iter (11 * length ps) (b, Peers ps rs) = (b', Peers [] []) /\
    ready b' = true /\ wire b' = wire b ++ relay ps rs.
Proof.
  induction ps as [|p ps IH]; intros rs b Hr Hps Hlen.
  - destruct rs; [|discriminate]. exists b. cbn.
    now rewrite app_nil_r.
  - destruct rs as [|r rs]; [discriminate|].
    inversion Hps as [|? ? Hp Hps']; subst.
    replace (11 * length (p :: ps)) with (11 + 11 * length ps)
      by (cbn [length]; lia).
    rewrite iter_add, (iter_turn b p r ps rs Hr Hp).
    destruct (IH rs (Bridge r false false AgWait DbRecv
                            (wire b ++ turn (p, r))))
      as (b' & Hi & Hr' & Hw); [reflexivity | exact Hps' | now injection Hlen |].
    exists b'. split; [exact Hi|]. split; [exact Hr'|].
    rewrite Hw. cbn [wire]. unfold relay. cbn [combine flat_map].
    now rewrite <- app_assoc.
Qed.

Lemma next_settled b : ready b = true -> next (b, Peers [] []) = (b, Peers [] []).
Proof.
  destruct b as [m ev ev2 a d t].
  destruct d, a, ev, ev2; try discriminate; reflexivity.
Qed.

Lemma iter_settled n b :
  ready b = true -> iter n (b, Peers [] []) = (b, Peers [] []).
Proof.
  intros Hr. induction n as [|n IH]; cbn; [reflexivity|].
  now rewrite next_settled.
Qed.

Lemma to_agent_relay ps : forall rs,
  length rs = length ps -> to_agent (relay ps rs) = ps.
Proof.
  induction ps as [|p ps IH]; intros [|r rs] Hlen; try discriminate.
  - reflexivity.
  - unfold relay, to_agent in *. cbn. f_equal. apply IH. now injection Hlen.
Qed.

Lemma to_dash_relay ps : forall rs,
  length rs = length ps -> to_dash (relay ps rs) = rs.
Proof.
  induction ps as [|p ps IH]; intros [|r rs] Hlen; try discriminate.
  - reflexivity.
  - unfold relay, to_dash in *. cbn. f_equal. apply IH. now injection Hlen.
Qed.

(** C2. Let the dashboard send the [N] requests [ps], none of them
    ["exit"], and the agent answer with [rs].  Under every schedule of the
    two handlers the log is a prefix of the strict sequence
    request in, request out, reply in, reply out, turn after turn, in the
    order of [ps]; and however the schedule began, [11 * N] further rounds
    of both handlers complete it: exactly the [N] requests have been sent
    to the agent and exactly the [N] replies to the dashboard. *)
Theorem relay_alternates_turn_for_turn ps rs sched :
  Forall (fun p => p <> sentinel) ps -> length rs = length ps ->
  (exists rest,
      relay ps rs = wire (fst (run sched (start, Peers ps rs))) ++ rest) /\
  (let b := fst (run (sched ++ round_robin (11 * length ps))
                     (start, Peers ps rs)) in
   wire b = relay ps rs /\
   to_agent (wire b) = ps /\ to_dash (wire b) = rs /\
   ready b = true).
Proof.
  intros Hps Hlen.
  set (x0 := (start, Peers ps rs)).
  assert (H0 : reachable (fst x0)) by exact reach_start.
  destruct (iter_relay ps rs start eq_refl Hps Hlen) as (bf & Hi & Hr & Hw).
  cbn [wire start app] in Hw.
  assert (Hfin : forall k, 11 * length ps <= k -> iter k x0 = (bf, Peers [] [])).
  { intros k Hk. replace k with (11 * length ps + (k - 11 * length ps)) by lia.
    rewrite iter_add. unfold x0. rewrite Hi. now apply iter_settled. }
  destruct (run_iter sched x0 H0) as [k Hk].
  split.
  - rewrite Hk.
    destruct (iter_wire (11 * length ps) (iter k x0)) as [l Hl].
    rewrite <- iter_add, Hfin in Hl by lia. cbn [fst] in Hl.
    exists l. now rewrite <- Hw.
  - cbv zeta. rewrite run_app. fold x0. rewrite Hk.
    destruct (round_robin_iter (11 * length ps) (iter k x0)
                (iter_reachable k x0 H0)) as (j & Hj & Hrr).
    rewrite Hrr, <- iter_add, Hfin by lia. cbn [fst].
    rewrite Hw. repeat split.
    + now apply to_agent_relay.
    + now apply to_dash_relay.
    + exact Hr.
Qed.

Lemma relay_alternates_turn_for_turn_witness :
  wire (fst (run ([Agent; Agent; Dashboard; Agent] ++ round_robin 22)
                 (start, Peers ["arm"; "takeoff"] ["armed"; "airborne"])))
  = [FromDash "arm"; ToAgent "arm"; FromAgent "armed"; ToDash "armed";
     FromDash "takeoff"; ToAgent "takeoff";
     FromAgent "airborne"; ToDash "airborne"].
Proof.
  refine (proj1 (proj2 (relay_alternates_turn_for_turn ["arm"; "takeoff"] ["armed"; "airborne"]
                          [Agent; Agent; Dashboard; Agent] _ eq_refl))).
  repeat constructor; discriminate.
Defined.

(** ** Further properties of the hand-off *)

(** X1. The two handlers run in lock step: in no reachable state can both
    [agenticHandler] and [dashboardHandler] take a statement, whatever the
    websockets do. *)
Theorem handlers_never_both_runnable b o1 o2 b1 b2 :
  reachable b ->
  agenticHandler o1 b = Some b1 -> dashboardHandler o2 b = Some b2 -> False.
Proof.
  intros Hb. apply reachable_phase_ok in Hb.
  destruct b as [m ev ev2 a d t].
  destruct d, a, ev, ev2; try discriminate Hb;
    destruct o1; cbn; try discriminate;
    destruct o2; cbn; discriminate.
Qed.

Lemma handlers_never_both_runnable_witness :
  agenticHandler Quiet (Bridge "hi" true false AgWait DbWait [FromDash "hi"])
  = Some (Bridge "hi" true false AgClear DbWait [FromDash "hi"]) /\
  (dashboardHandler Quiet (Bridge "hi" true false AgWait DbWait [FromDash "hi"])
   = Some start -> False).
Proof.
  split; [reflexivity|].
  apply (handlers_never_both_runnable
           (Bridge "hi" true false AgWait DbWait [FromDash "hi"])
           Quiet Quiet
           (Bridge "hi" true false AgClear DbWait [FromDash "hi"]) start).
  - apply (exec_reachable
             [(Dashboard, Got "hi"); (Dashboard, Quiet); (Dashboard, Quiet)]
             start); [exact reach_start | reflexivity].
  - reflexivity.
Defined.

(** X2. The hand-off stops exactly when a session has closed: from a
    reachable state some statement of some handler can run (for a suitable
    websocket outcome) if and only if neither handler has left its loop. *)
Theorem runs_until_a_session_closes b :
  reachable b ->
  (exists b', step b b') <-> (agent b <> AgClosed /\ dashboard b <> DbClosed).
Proof.
  intros Hb. apply reachable_phase_ok in Hb.
  destruct b as [m ev ev2 a d t].
  split.
  - intros (b' & w & o & Hs).
    destruct d, a, ev, ev2; try discriminate Hb;
      destruct w, o; cbn in Hs; try discriminate Hs;
      split; discriminate.
  - intros [Ha Hd].
    unfold step. cbn in Ha, Hd.
    destruct d, a, ev, ev2; try discriminate Hb; try congruence; cbn;
      try (destruct (String.eqb m sentinel) eqn:Em);
      first
        [ eexists; exists Dashboard, Quiet; cbn; rewrite ?Em; reflexivity
        | eexists; exists Dashboard, Sent; reflexivity
        | eexists; exists Dashboard, (Got ""); reflexivity
        | eexists; exists Agent, Quiet; reflexivity
        | eexists; exists Agent, Sent; reflexivity
        | eexists; exists Agent, (Got ""); reflexivity ].
Qed.

Lemma runs_until_a_session_closes_witness :
  (exists b', step (Bridge "hi" true false AgWait DbWait [FromDash "hi"]) b')
  <-> (AgWait <> AgClosed /\ DbWait <> DbClosed).
Proof.
  apply (runs_until_a_session_closes
           (Bridge "hi" true false AgWait DbWait [FromDash "hi"])).
  apply (exec_reachable
           [(Dashboard, Got "hi"); (Dashboard, Quiet); (Dashboard, Quiet)]
           start); [exact reach_start | reflexivity].
Defined.

Lemma stuck_when_closed b :
  phase_ok b = true -> agent b = AgClosed \/ dashboard b = DbClosed ->
  forall b', ~ step b b'.
Proof.
  intros Hp Hc b' (w & o & Hs).
  destruct b as [m ev ev2 a d t]; cbn in Hc.
  destruct d, a, ev, ev2; try discriminate Hp;
    destruct Hc as [Hc|Hc]; try discriminate Hc;
    destruct w, o; discriminate Hs.
Qed.

(** X3. Once the agent handler has left its loop (its websocket raised in
    the middle of a turn), the dashboard handler is suspended on [event2]
    for good: it has not closed, both signals are unset, and no execution
    changes the state any more. *)
Theorem agent_close_strands_dashboard b :
  reachable b -> agent b = AgClosed ->
  dashboard b = DbWait /\ event b = false /\ event2 b = false /\
  (forall ls b', exec ls b = Some b' -> b' = b).
Proof.
  intros Hb Ha. apply reachable_phase_ok in Hb.
  assert (Hs : forall b', ~ step b b') by (apply stuck_when_closed; auto).
  destruct b as [m ev ev2 a d t]; cbn in Ha; subst a.
  destruct d, ev, ev2; try discriminate Hb.
  repeat split. now apply exec_stuck.
Qed.

Lemma agent_close_strands_dashboard_witness :
  dashboard (Bridge "land" false false AgClosed DbWait
                    [FromDash "land"; ToAgent "land"]) = DbWait.
Proof.
  refine (proj1 (agent_close_strands_dashboard
                   (Bridge "land" false false AgClosed DbWait
                           [FromDash "land"; ToAgent "land"]) _ eq_refl)).
  apply (exec_reachable
           [(Dashboard, Got "land"); (Dashboard, Quiet); (Dashboard, Quiet);
            (Agent, Quiet); (Agent, Quiet); (Agent, Sent); (Agent, Raised)]
           start); [exact reach_start | reflexivity].
Defined.

(** X4. However the dashboard handler left its loop (on ["exit"] or on a
    raising websocket), it did so between turns: the agent handler is
    waiting on [event], both signals are unset, and no execution changes
    the state any more. *)
Theorem dashboard_close_is_between_turns b :
  reachable b -> dashboard b = DbClosed ->
  agent b = AgWait /\ event b = false /\ event2 b = false /\
  (forall ls b', exec ls b = Some b' -> b' = b).
Proof.
  intros Hb Hd. apply reachable_phase_ok in Hb.
  assert (Hs : forall b', ~ step b b') by (apply stuck_when_closed; auto).
  destruct b as [m ev ev2 a d t]; cbn in Hd; subst d.
  destruct a, ev, ev2; try discriminate Hb.
  repeat split. now apply exec_stuck.
Qed.

Lemma dashboard_close_is_between_turns_witness :
  agent (Bridge "ok" false false AgWait DbClosed
                [FromDash "land"; ToAgent "land"; FromAgent "ok"]) = AgWait.
Proof.
  refine (proj1 (dashboard_close_is_between_turns
                   (Bridge "ok" false false AgWait DbClosed
                           [FromDash "land"; ToAgent "land"; FromAgent "ok"])
                   _ eq_refl)).
  apply (exec_reachable
           [(Dashboard, Got "land"); (Dashboard, Quiet); (Dashboard, Quiet);
            (Agent, Quiet); (Agent, Quiet); (Agent, Sent); (Agent, Got "ok");
            (Agent, Quiet); (Dashboard, Quiet); (Dashboard, Quiet);
            (Dashboard, Raised)]
           start); [exact reach_start | reflexivity].
Defined.

(** X5. A set signal says what the mailbox holds: while [event] is set the
    mailbox is the text last received from the dashboard, which is not
    ["exit"], and while [event2] is set the mailbox is the text last
    received from the agent; in both cases that receive is the last thing
    that crossed a websocket. *)
Theorem set_signal_names_mailbox b :
  reachable b ->
  (event b = true ->
   last_event (wire b) = Some (FromDash (message b)) /\
   message b <> sentinel) /\
  (event2 b = true ->
   last_event (wire b) = Some (FromAgent (message b))).
Proof.
  intros Hb. destruct (reachable_sound b Hb) as (Hp & _ & Hk).
  destruct b as [m ev ev2 a d t].
  unfold cursor in Hk. cbn in *.
  split; intros ->.
  - destruct d, a, ev2; try discriminate Hp;
      destruct (last_event t) as [[q|q|q|q]|]; try discriminate Hk;
      apply andb_prop in Hk as [H1 H2];
      apply String.eqb_eq in H1 as ->;
      apply negb_true_iff in H2; apply String.eqb_neq in H2; now split.
  - destruct d, a, ev; try discriminate Hp;
      destruct (last_event t) as [[q|q|q|q]|]; try discriminate Hk;
      now apply String.eqb_eq in Hk as ->.
Qed.

Lemma set_signal_names_mailbox_witness :
  last_event [FromDash "hi"] = Some (FromDash "hi") /\ "hi" <> sentinel.
Proof.
  refine (proj1 (set_signal_names_mailbox
                   (Bridge "hi" true false AgWait DbWait [FromDash "hi"]) _)
                eq_refl).
  apply (exec_reachable
           [(Dashboard, Got "hi"); (Dashboard, Quiet); (Dashboard, Quiet)]
           start); [exact reach_start | reflexivity].
Defined.

(** ** Delivery counts on the log *)

Lemma from_dash_snoc l e :
  from_dash (l ++ [e])
  = from_dash l ++ match e with FromDash p => [p] | _ => [] end.
Proof. unfold from_dash. rewrite flat_map_app. cbn. now rewrite app_nil_r. Qed.

Lemma to_agent_snoc l e :
  to_agent (l ++ [e])
  = to_agent l ++ match e with ToAgent p => [p] | _ => [] end.
Proof. unfold to_agent. rewrite flat_map_app. cbn. now rewrite app_nil_r. Qed.

Lemma from_agent_snoc l e :
  from_agent (l ++ [e])
  = from_agent l ++ match e with FromAgent p => [p] | _ => [] end.
Proof. unfold from_agent. rewrite flat_map_app. cbn. now rewrite app_nil_r. Qed.

Lemma to_dash_snoc l e :
  to_dash (l ++ [e])
  = to_dash l ++ match e with ToDash p => [p] | _ => [] end.
Proof. unfold to_dash. rewrite flat_map_app. cbn. now rewrite app_nil_r. Qed.

Lemma chained_tally l : chained None l = true -> tally l.
Proof.
  induction l as [|e l IH] using rev_ind; [reflexivity|].
  rewrite chained_snoc. intros H. apply andb_prop in H as [Hc Hf].
  specialize (IH Hc). unfold tally in *.
  rewrite last_event_snoc.
  rewrite from_dash_snoc, to_agent_snoc, from_agent_snoc, to_dash_snoc.
  fold (last_event l) in Hf.
  destruct (last_event l) as [[q|q|q|q]|]; destruct e as [p|p|p|p];
    try discriminate Hf; cbn in Hf;
    try (apply andb_prop in Hf as [Hf _]);
    try (apply String.eqb_eq in Hf; subst);
    try (destruct IH as (H1 & H2 & H3));
    try subst l; cbn; rewrite ?app_nil_r, ?length_app; cbn;
    repeat split; try congruence; try lia.
Qed.

(** X6. In every execution the texts sent to the agent are, in order, the
    texts received from the dashboard, short of at most the last one (the
    request not yet forwarded, or the final ["exit"]). *)
Theorem requests_forwarded_in_order b :
  reachable b ->
  exists pending,
    from_dash (wire b) = to_agent (wire b) ++ pending /\ length pending <= 1.
Proof.
  intros Hb. destruct (reachable_sound b Hb) as (_ & Hc & _).
  apply chained_tally in Hc. unfold tally in Hc.
  destruct (last_event (wire b)) as [[q|q|q|q]|].
  - destruct Hc as (H & _). exists [q]. split; [exact H | cbn; lia].
  - destruct Hc as (H & _). exists []. rewrite app_nil_r. split; [exact H | cbn; lia].
  - destruct Hc as (H & _). exists []. rewrite app_nil_r. split; [exact H | cbn; lia].
  - destruct Hc as (H & _). exists []. rewrite app_nil_r. split; [exact H | cbn; lia].
  - rewrite Hc. exists []. split; [reflexivity | cbn; lia].
Qed.

Lemma requests_forwarded_in_order_witness :
  exists pending,
    from_dash [FromDash "arm"; ToAgent "arm"; FromAgent "armed";
               ToDash "armed"; FromDash "exit"]
    = to_agent [FromDash "arm"; ToAgent "arm"; FromAgent "armed";
                ToDash "armed"; FromDash "exit"] ++ pending /\
    length pending <= 1.
Proof.
  apply (requests_forwarded_in_order
           (Bridge "exit" false false AgWait DbTest
                   [FromDash "arm"; ToAgent "arm"; FromAgent "armed";
                    ToDash "armed"; FromDash "exit"])).
  apply (exec_reachable
           [(Dashboard, Got "arm"); (Dashboard, Quiet); (Dashboard, Quiet);
            (Agent, Quiet); (Agent, Quiet); (Agent, Sent);
            (Agent, Got "armed"); (Agent, Quiet); (Dashboard, Quiet);
            (Dashboard, Quiet); (Dashboard, Sent); (Dashboard, Got "exit")]
           start); [exact reach_start | reflexivity].
Defined.

(** X7. In every execution the texts sent to the dashboard are, in order,
    the texts received from the agent, short of at most the last one (the
    reply not yet returned). *)
Theorem replies_returned_in_order b :
  reachable b ->
  exists pending,
    from_agent (wire b) = to_dash (wire b) ++ pending /\ length pending <= 1.
Proof.
  intros Hb. destruct (reachable_sound b Hb) as (_ & Hc & _).
  apply chained_tally in Hc. unfold tally in Hc.
  destruct (last_event (wire b)) as [[q|q|q|q]|].
  - destruct Hc as (_ & H & _). exists []. rewrite app_nil_r. split; [exact H | cbn; lia].
  - destruct Hc as (_ & H & _). exists []. rewrite app_nil_r. split; [exact H | cbn; lia].
  - destruct Hc as (_ & H & _). exists [q]. split; [exact H | cbn; lia].
  - destruct Hc as (_ & H & _). exists []. rewrite app_nil_r. split; [exact H | cbn; lia].
  - rewrite Hc. exists []. split; [reflexivity | cbn; lia].
Qed.

Lemma replies_returned_in_order_witness :
  exists pending,
    from_agent [FromDash "arm"; ToAgent "arm"; FromAgent "armed"]
    = to_dash [FromDash "arm"; ToAgent "arm"; FromAgent "armed"] ++ pending /\
    length pending <= 1.
Proof.
  apply (replies_returned_in_order
           (Bridge "armed" false false AgSet DbWait
                   [FromDash "arm"; ToAgent "arm"; FromAgent "armed"])).
  apply (exec_reachable
           [(Dashboard, Got "arm"); (Dashboard, Quiet); (Dashboard, Quiet);
            (Agent, Quiet); (Agent, Quiet); (Agent, Sent);
            (Agent, Got "armed")]
           start); [exact reach_start | reflexivity].
Defined.

(** X8. At most one message is in flight: at any moment of any execution
    the numbers of replies returned, replies received, requests forwarded
    and texts received from the dashboard are in this order and the last
    exceeds the first by at most one. *)
Theorem one_message_in_flight b :
  reachable b ->
  length (to_dash (wire b)) <= length (from_agent (wire b)) /\
  length (from_agent (wire b)) <= length (to_agent (wire b)) /\
  length (to_agent (wire b)) <= length (from_dash (wire b)) /\
  length (from_dash (wire b)) <= S (length (to_dash (wire b))).
Proof.
  intros Hb. destruct (reachable_sound b Hb) as (_ & Hc & _).
  apply chained_tally in Hc. unfold tally in Hc.
  destruct (last_event (wire b)) as [[q|q|q|q]|].
  1-4: destruct Hc as (H1 & H2 & H3); rewrite H1, H2;
    rewrite ?length_app; cbn; lia.
  rewrite Hc. cbn. lia.
Qed.

Lemma one_message_in_flight_witness :
  length (to_dash [FromDash "arm"; ToAgent "arm"])
  <= length (from_agent [FromDash "arm"; ToAgent "arm"]) /\
  length (from_agent [FromDash "arm"; ToAgent "arm"])
  <= length (to_agent [FromDash "arm"; ToAgent "arm"]) /\
  length (to_agent [FromDash "arm"; ToAgent "arm"])
  <= length (from_dash [FromDash "arm"; ToAgent "arm"]) /\
  length (from_dash [FromDash "arm"; ToAgent "arm"])
  <= S (length (to_dash [FromDash "arm"; ToAgent "arm"])).
Proof.
  apply (one_message_in_flight
           (Bridge "arm" false false AgRecv DbWait
                   [FromDash "arm"; ToAgent "arm"])).
  apply (exec_reachable
           [(Dashboard, Got "arm"); (Dashboard, Quiet); (Dashboard, Quiet);
            (Agent, Quiet); (Agent, Quiet); (Agent, Sent)]
           start); [exact reach_start | reflexivity].
Defined.

(** ** Edge cases of a session *)

(** X9. A reply ["exit"] from the agent does not end the dashboard
    session: it is stored, signalled and sent to the dashboard like any
    other reply, and the dashboard handler goes on to its next receive with
    the mailbox still holding ["exit"]. *)
Theorem reply_exit_is_relayed b :
  reachable b -> agent b = AgRecv ->
  exists b',
    exec [(Agent, Got sentinel); (Agent, Quiet);
          (Dashboard, Quiet); (Dashboard, Quiet); (Dashboard, Sent)] b
    = Some b' /\
    dashboard b' = DbRecv /\ agent b' = AgWait /\
    message b' = sentinel /\
    wire b' = wire b ++ [FromAgent sentinel; ToDash sentinel] /\
    (forall p, exists b'', dashboardHandler (Got p) b' = Some b'').
Proof.
  intros Hb Ha. apply reachable_phase_ok in Hb.
  destruct b as [m ev ev2 a d t]; cbn in Ha; subst a.
  destruct d, ev, ev2; try discriminate Hb.
  eexists. split; [reflexivity|]. cbn.
  repeat split.
  - now rewrite <- app_assoc.
  - intros p. eexists. reflexivity.
Qed.

Lemma reply_exit_is_relayed_witness :
  exists b',
    exec [(Agent, Got sentinel); (Agent, Quiet);
          (Dashboard, Quiet); (Dashboard, Quiet); (Dashboard, Sent)]
         (Bridge "land" false false AgRecv DbWait
                 [FromDash "land"; ToAgent "land"])
    = Some b' /\
    dashboard b' = DbRecv /\ agent b' = AgWait /\
    message b' = sentinel /\
    wire b' = [FromDash "land"; ToAgent "land"]
                ++ [FromAgent sentinel; ToDash sentinel] /\
    (forall p, exists b'', dashboardHandler (Got p) b' = Some b'').
Proof.
  apply (reply_exit_is_relayed
           (Bridge "land" false false AgRecv DbWait
                   [FromDash "land"; ToAgent "land"])).
  - apply (exec_reachable
             [(Dashboard, Got "land"); (Dashboard, Quiet); (Dashboard, Quiet);
              (Agent, Quiet); (Agent, Quiet); (Agent, Sent)] start);
      [exact reach_start | reflexivity].
  - reflexivity.
Defined.

(** X10. The loop test on line 31 only ever sees a text that has just been
    received from the dashboard: whenever the dashboard handler is at the
    test, the mailbox is the text of the last log entry, a receive from the
    dashboard.  So only the dashboard's own ["exit"] ends the loop. *)
Theorem loop_test_sees_dashboard_text b :
  reachable b -> dashboard b = DbTest ->
  last_event (wire b) = Some (FromDash (message b)).
Proof.
  intros Hb Hd. destruct (reachable_sound b Hb) as (_ & _ & Hk).
  destruct b as [m ev ev2 a d t]; cbn in Hd; subst d.
  unfold cursor in Hk. cbn in *.
  destruct (last_event t) as [[q|q|q|q]|]; try discriminate Hk.
  now apply String.eqb_eq in Hk as ->.
Qed.

Lemma loop_test_sees_dashboard_text_witness :
  last_event [FromDash "arm"; ToAgent "arm"; FromAgent "exit";
              ToDash "exit"; FromDash "land"]
  = Some (FromDash "land").
Proof.
  apply (loop_test_sees_dashboard_text
           (Bridge "land" false false AgWait DbTest
                   [FromDash "arm"; ToAgent "arm"; FromAgent "exit";
                    ToDash "exit"; FromDash "land"])).
  - apply (exec_reachable
             [(Dashboard, Got "arm"); (Dashboard, Quiet); (Dashboard, Quiet);
              (Agent, Quiet); (Agent, Quiet); (Agent, Sent);
              (Agent, Got "exit"); (Agent, Quiet); (Dashboard, Quiet);
              (Dashboard, Quiet); (Dashboard, Sent); (Dashboard, Got "land")]
             start); [exact reach_start | reflexivity].
  - reflexivity.
Defined.

Lemma unanswered_start : unanswered start.
Proof. repeat split. intros [=]. Qed.

Lemma unanswered_step o b b' :
  unanswered b -> dashboardHandler o b = Some b' -> unanswered b'.
Proof.
  intros (Ha & H2 & Hd & Hta & Htd & Hw) H.
  destruct b as [m ev ev2 a d t].
  cbn [agent event2 dashboard wire event] in Ha, H2, Hd, Hta, Htd, Hw.
  subst a ev2.
  destruct d, o; try discriminate Hd; cbn in H; try discriminate H;
    try (destruct (String.eqb m sentinel));
    injection H as <-;
    unfold unanswered, dash_goto, write, emit, turn_signal, reply_signal;
    cbn [agent event2 dashboard wire event before_reply];
    rewrite ?to_agent_snoc, ?to_dash_snoc, ?Hta, ?Htd;
    repeat split; auto; discriminate.
Qed.

(** X11. As long as the agent handler runs no statement (no agent is
    served), the dashboard handler never gets past its wait on [event2]:
    nothing is sent to the agent or back to the dashboard, and once it
    waits, with [event] set, no websocket outcome lets it continue. *)
Theorem dashboard_alone_waits ls b :
  Forall (fun l => fst l = Dashboard) ls -> exec ls start = Some b ->
  before_reply (dashboard b) = true /\
  to_agent (wire b) = [] /\ to_dash (wire b) = [] /\
  (dashboard b = DbWait ->
   event b = true /\ forall o, dashboardHandler o b = None).
Proof.
  intros Hls He.
  assert (Hu : unanswered b).
  { revert He. generalize unanswered_start. generalize start.
    induction Hls as [|[w o] ls Hw _ IH]; intros b0 H0; cbn.
    - now intros [= <-].
    - cbn in Hw. subst w. cbn.
      destruct (dashboardHandler o b0) as [b1|] eqn:E; [|discriminate].
      apply IH. eapply unanswered_step; eauto. }
  destruct Hu as (Ha & H2 & Hd & Hta & Htd & Hw).
  repeat split; auto.
  intros o. destruct b as [m ev ev2 a d t]; cbn in *; subst d ev2.
  destruct o; reflexivity.
Qed.

Lemma dashboard_alone_waits_witness :
  before_reply DbWait = true /\
  to_agent [FromDash "arm"] = [] /\ to_dash [FromDash "arm"] = [] /\
  (DbWait = DbWait ->
   true = true /\
   forall o, dashboardHandler o
               (Bridge "arm" true false AgWait DbWait [FromDash "arm"])
             = None).
Proof.
  apply (dashboard_alone_waits
           [(Dashboard, Got "arm"); (Dashboard, Quiet); (Dashboard, Quiet)]
           (Bridge "arm" true false AgWait DbWait [FromDash "arm"])).
  - repeat constructor.
  - reflexivity.
Defined.

(** ** More on schedules *)

(** X12. The event loop's choice of which handler to resume does not
    matter: for the same texts from the two peers, the logs of any two
    schedules are comparable, one being a prefix of the other. *)
Theorem schedules_agree e s1 s2 :
  exists rest,
    wire (fst (run s1 (start, e))) = wire (fst (run s2 (start, e))) ++ rest \/
    wire (fst (run s2 (start, e))) = wire (fst (run s1 (start, e))) ++ rest.
Proof.
  assert (H0 : reachable (fst (start, e))) by exact reach_start.
  destruct (run_iter s1 _ H0) as [k1 ->].
  destruct (run_iter s2 _ H0) as [k2 ->].
  destruct (Nat.le_ge_cases k1 k2) as [Hk|Hk].
  - destruct (iter_wire (k2 - k1) (iter k1 (start, e))) as [l Hl].
    rewrite <- iter_add in Hl. replace (k1 + (k2 - k1)) with k2 in Hl by lia.
    exists l. now right.
  - destruct (iter_wire (k1 - k2) (iter k2 (start, e))) as [l Hl].
    rewrite <- iter_add in Hl. replace (k2 + (k1 - k2)) with k1 in Hl by lia.
    exists l. now left.
Qed.

Lemma iter_relay_more ps : forall rs ds ags b,
  ready b = true -> Forall (fun p => p <> sentinel) ps ->
  length rs = length ps ->
  exists b',
    iter (11 * length ps) (b, Peers (ps ++ ds) (rs ++ ags))
    = (b', Peers ds ags) /\
    ready b' = true /\ wire b' = wire b ++ relay ps rs.
Proof.
  induction ps as [|p ps IH]; intros rs ds ags b Hr Hps Hlen.
  - destruct rs; [|discriminate]. exists b. cbn.
    now rewrite app_nil_r.
  - destruct rs as [|r rs]; [discriminate|].
    inversion Hps as [|? ? Hp Hps']; subst.
    replace (11 * length (p :: ps)) with (11 + 11 * length ps)
      by (cbn [length]; lia).
    rewrite iter_add. cbn [app].
    rewrite (iter_turn b p r (ps ++ ds) (rs ++ ags) Hr Hp).
    destruct (IH rs ds ags (Bridge r false false AgWait DbRecv
                                   (wire b ++ turn (p, r))))
      as (b' & Hi & Hr' & Hw); [reflexivity | exact Hps' | now injection Hlen |].
    exists b'. split; [exact Hi|]. split; [exact Hr'|].
    rewrite Hw. cbn [wire]. unfold relay. cbn [combine flat_map].
    now rewrite <- app_assoc.
Qed.

Lemma iter_exit b more ags :
  ready b = true ->
  iter 2 (b, Peers (sentinel :: more) ags)
  = (Bridge sentinel false false AgWait DbClosed
            (wire b ++ [FromDash sentinel]),
     Peers more ags).
Proof.
  intros Hr. destruct b as [m ev ev2 a d t].
  destruct d, a, ev, ev2; try discriminate Hr; clear Hr;
    (eapply iter_step; [unfold tick, attempt; cbn; reflexivity|]);
    (eapply iter_step;
     [unfold tick, attempt; cbn; rewrite String.eqb_refl; reflexivity|]);
    reflexivity.
Qed.

Lemma iter_closed n b e :
  dashboard b = DbClosed -> agent b = AgWait -> event b = false ->
  iter n (b, e) = (b, e).
Proof.
  intros Hd Ha Hev.
  assert (Hn : next (b, e) = (b, e)).
  { destruct b as [m ev ev2 a d t]; cbn in *; subst. reflexivity. }
  induction n as [|n IH]; cbn; [reflexivity|]. now rewrite Hn.
Qed.

(** X13. When the dashboard sends ["exit"] after [N] requests, the session
    relays the [N] requests, logs the receive of ["exit"] and closes,
    under every schedule followed by [11 * N + 2] rounds of both handlers;
    whatever the dashboard sent after ["exit"] is never read, and the
    agent is not asked for anything more. *)
Theorem exit_stops_the_relay ps rs more ags sched :
  Forall (fun p => p <> sentinel) ps -> length rs = length ps ->
  let x := run (sched ++ round_robin (11 * length ps + 2))
               (start, Peers (ps ++ sentinel :: more) (rs ++ ags)) in
  dashboard (fst x) = DbClosed /\
  wire (fst x) = relay ps rs ++ [FromDash sentinel] /\
  to_agent (wire (fst x)) = ps /\
  dash_says (snd x) = more /\ agent_says (snd x) = ags.
Proof.
  intros Hps Hlen.
  set (x0 := (start, Peers (ps ++ sentinel :: more) (rs ++ ags))).
  assert (H0 : reachable (fst x0)) by exact reach_start.
  destruct (iter_relay_more ps rs (sentinel :: more) ags start
              eq_refl Hps Hlen) as (bf & Hi & Hr & Hw).
  cbn [wire start app] in Hw.
  set (bc := Bridge sentinel false false AgWait DbClosed
                    (wire bf ++ [FromDash sentinel])).
  assert (Hfin : forall k, 11 * length ps + 2 <= k ->
                           iter k x0 = (bc, Peers more ags)).
  { intros k Hk.
    replace k with (11 * length ps + (2 + (k - (11 * length ps + 2))))
      by lia.
    rewrite iter_add. unfold x0. rewrite Hi.
    rewrite iter_add, (iter_exit bf more ags Hr).
    now apply iter_closed. }
  cbv zeta. rewrite run_app. fold x0.
  destruct (run_iter sched x0 H0) as [k ->].
  destruct (round_robin_iter (11 * length ps + 2) (iter k x0)
              (iter_reachable k x0 H0)) as (j & Hj & ->).
  rewrite <- iter_add, Hfin by lia. cbn [fst snd bc dashboard wire dash_says agent_says].
  rewrite Hw. repeat split.
  rewrite to_agent_snoc, app_nil_r. now apply to_agent_relay.
Qed.

Lemma exit_stops_the_relay_witness :
  wire (fst (run ([Agent; Dashboard; Dashboard] ++ round_robin 13)
                 (start, Peers (["arm"] ++ sentinel :: ["land"])
                               (["armed"] ++ ["late"]))))
  = [FromDash "arm"; ToAgent "arm"; FromAgent "armed"; ToDash "armed";
     FromDash "exit"].
Proof.
  refine (proj1 (proj2 (exit_stops_the_relay ["arm"] ["armed"] ["land"]
                          ["late"] [Agent; Dashboard; Dashboard] _ eq_refl))).
  repeat constructor; discriminate.
Defined.
